(** * QMigrate.util: sample arithmetic, Gaussian kernels and the error taxonomy

    A shallow embedding of [QMigrate/util.py].

    - [Rational] holds the two integer roundings of a rational number, by
      which the results of the binary64 functions are described.
    - [B64] gives the sample arithmetic its binary64 meaning: Python's
      [float] is an IEEE 754 double, which is what primitive floats are, so
      the functions of this module can be run on concrete arguments and return
      what the interpreter returns, digit for digit.
    - [Gaussian] holds the kernel generators on binary64 as well.  The one
      operation that is not an IEEE 754 operation, [np.exp], is a variable
      of the module; what is assumed of it is said where it is used.
    - [Errors] holds the exception classes and their message strings.
    - [Directories] holds [make_directories] over a file system that maps
      paths to directories and files, with [Path.mkdir] as pathlib has it. *)

From Stdlib Require Import ZArith QArith Qround Qabs Psatz List.
From Stdlib Require Import String Ascii Floats.
From Stdlib Require Uint63.
Import ListNotations.

(* Decimal literals such as 2.01 stand for the nearest double, as in Python. *)
Set Warnings "-inexact-float".

(* ================================================================== *)
(** ** Integer roundings of a rational *)

Module Rational.
Local Open Scope Q_scope.

(** The integer part, toward zero. *)
Definition truncate (x : Q) : Z := Z.quot (Qnum x) (Z.pos (Qden x)).

(** The nearest integer, the even one on a tie. *)
Definition round_half_even (x : Q) : Z :=
  let f := Qfloor x in
  match Qcompare (x - inject_Z f) (1 # 2) with
  | Lt => f
  | Gt => (f + 1)%Z
  | Eq => if Z.even f then f else (f + 1)%Z
  end.

(** A rational that is a whole number. *)
Definition is_integer (x : Q) : Prop := exists n : Z, x == inject_Z n.

End Rational.

(* ================================================================== *)
(** ** Binary64 sample arithmetic *)

Module B64.
Local Open Scope Z_scope.

(** [float(n)] for a Python int: the nearest double, ties to even. *)
Definition float_of_int (n : Z) : float :=
  SF2Prim (binary_normalize prec emax n 0 false).

(** [int(x)] for a float: truncation toward zero.  [None] stands for the
    [ValueError] / [OverflowError] Python raises on NaN and infinities. *)
Definition py_int (x : float) : option Z :=
  match Prim2SF x with
  | S754_zero _ => Some 0
  | S754_finite s m e =>
      let a := if 0 <=? e then Z.pos m * 2 ^ e else Z.pos m / 2 ^ (- e) in
      Some (if s then - a else a)
  | S754_infinity _ | S754_nan => None
  end.

(** [round(x)] for a float, one argument: the nearest int, ties to even. *)
Definition py_round (x : float) : option Z :=
  match Prim2SF x with
  | S754_zero _ => Some 0
  | S754_finite s m e =>
      let a :=
        if 0 <=? e then Z.pos m * 2 ^ e
        else
          let d := 2 ^ (- e) in
          let q := Z.pos m / d in
          match 2 * (Z.pos m mod d) ?= d with
          | Lt => q
          | Gt => q + 1
          | Eq => if Z.even q then q else q + 1
          end in
      Some (if s then - a else a)
  | S754_infinity _ | S754_nan => None
  end.

(** [np.ceil(x)]: a float again; NaN and infinities pass through. *)
Definition np_ceil (x : float) : float :=
  match Prim2SF x with
  | S754_finite s m e =>
      if 0 <=? e then x
      else
        let d := 2 ^ (- e) in
        let q := Z.pos m / d in
        if s then (if q =? 0 then neg_zero else (- float_of_int q)%float)
        else float_of_int (if Z.pos m mod d =? 0 then q else q + 1)
  | _ => x
  end.

(** [int(n)] for a value that is an int already. *)
Definition int_of_int (n : Z) : Z := n.

(** [return int(round(time*int(sampling_rate)))] *)
Definition time2sample (time sampling_rate : float) : option Z :=
  match py_int sampling_rate with
  | None => None
  | Some r =>
      match py_round (time * float_of_int r)%float with
      | None => None
      | Some n => Some (int_of_int n)
      end
  end.

(** [return int(np.ceil(time * sampling_rate) / sampling_rate * 1000) / 1000] *)
Definition trim2sample (time sampling_rate : float) : option float :=
  match py_int (np_ceil (time * sampling_rate) / sampling_rate * 1000)%float with
  | None => None
  | Some n => Some (float_of_int n / 1000)%float
  end.

(** The number a double stands for, exactly; [None] for NaN and the
    infinities.  A double with mantissa [m] and exponent [e] is
    [m * 2 ^ e]. *)
Definition value (x : float) : option Q :=
  match Prim2SF x with
  | S754_zero _ => Some 0%Q
  | S754_finite s m e =>
      let n := if s then Z.neg m else Z.pos m in
      Some (if 0 <=? e then inject_Z (n * 2 ^ e)
            else Qmake n (Z.to_pos (2 ^ (- e))))
  | S754_infinity _ | S754_nan => None
  end.





End B64.

(* ================================================================== *)
(** ** Gaussian kernels on binary64 *)

Module Gaussian.
Local Open Scope float_scope.

(** A dense 3-D array, first axis outermost. *)
Definition array3 := list (list (list float)).

(** [n / 2] for a Python int [n]: the correctly rounded quotient.  Halving
    the double nearest to [n] is exact, so this is it, for every [n] a
    double can hold (beyond 2 ^ 1024 Python raises [OverflowError]). *)
Definition half (n : Z) : float := B64.float_of_int n / 2.


(** Element [i] of [np.linspace(start, stop, num)], as numpy computes it:
    [y = arange(0, num)], [delta = stop - start], [div = num - 1]; for
    [div > 0], [step = delta / div] and [y = y * step] (or
    [y = y / div * delta] when the step is 0); for [div = 0],
    [y = y * delta]; then [y += start], and for [num > 1] the last element
    is set to [stop]. *)
Definition linspace_item (start stop : float) (num i : nat) : float :=
  let delta := stop - start in
  let yi := B64.float_of_int (Z.of_nat i) in
  match num with
  | O | S O => yi * delta + start
  | S div =>
      if Nat.eqb i div then stop
      else
        let d := B64.float_of_int (Z.of_nat div) in
        let step := delta / d in
        (if step =? 0 then yi / d * delta else yi * step) + start
  end.

(** [np.linspace(start, stop, num)] *)
Definition linspace (start stop : float) (num : nat) : list float :=
  map (linspace_item start stop num) (seq 0 num).

(** [np.meshgrid(x, y, z, indexing="ij")]: three arrays of shape
    [(len x, len y, len z)], the [a]-th holding its vector along axis [a]. *)
Definition meshgrid_ij (x y z : list float) : array3 * array3 * array3 :=
  (map (fun xi => map (fun _ => map (fun _ => xi) z) y) x,
   map (fun _ => map (fun yj => map (fun _ => yj) z) y) x,
   map (fun _ => map (fun _ => map (fun zk => zk) z) y) x).

(** Elementwise combination of three vectors, matrices and 3-D arrays. *)
Fixpoint zip3 {A B C D : Type} (f : A -> B -> C -> D)
  (a : list A) (b : list B) (c : list C) : list D :=
  match a, b, c with
  | x :: a', y :: b', z :: c' => f x y z :: zip3 f a' b' c'
  | _, _, _ => []
  end.

Definition elementwise3 (f : float -> float -> float -> float)
  (a b c : array3) : array3 :=
  zip3 (zip3 (zip3 f)) a b c.

(** The [sgm] argument: a scalar, or a sequence unpacked into three values. *)
Inductive sigma : Type :=
| Scalar (s : float)
| PerAxis (sx sy sz : float).

(** [if np.isscalar(sgm): sgm = np.repeat(sgm, 3)] then [sx, sy, sz = sgm]. *)
Definition unpack_sigma (sgm : sigma) : float * float * float :=
  match sgm with
  | Scalar s => (s, s, s)
  | PerAxis sx sy sz => (sx, sy, sz)
  end.

(** The argument [gaussian_3d] hands to [np.exp] at a point [(x, y, z)]. *)
Definition exponent_3d (sx sy sz x y z : float) : float :=
  - (x * x) / (2 * sx * sx) - (y * y) / (2 * sy * sy) - (z * z) / (2 * sz * sz).

Section WithExp.

(** [np.exp] on one double. *)
Variable np_exp : float -> float.


Definition gaussian_3d (nx ny nz : nat) (sgm : sigma) : array3 :=
  let nx2 := half (Z.of_nat nx - 1) in
  let ny2 := half (Z.of_nat ny - 1) in
  let nz2 := half (Z.of_nat nz - 1) in
  let x := linspace (- nx2) nx2 nx in
  let y := linspace (- ny2) ny2 ny in
  let z := linspace (- nz2) nz2 nz in
  let '(ix, iy, iz) := meshgrid_ij x y z in
  let '(sx, sy, sz) := unpack_sigma sgm in
  elementwise3
    (fun ix iy iz =>
       np_exp (- (ix * ix) / (2 * sx * sx)
               - (iy * iy) / (2 * sy * sy)
               - (iz * iz) / (2 * sz * sz)))
    ix iy iz.

End WithExp.

(** [f[i, j, k]]; [None] outside the array. *)
Definition item3 (f : array3) (i j k : nat) : option float :=
  match nth_error f i with
  | None => None
  | Some plane =>
      match nth_error plane j with
      | None => None
      | Some row => nth_error row k
      end
  end.


(** The index the documentation calls the centre: the floor of the
    half-extent [(n - 1) / 2]. *)
Definition center_index (n : nat) : nat := ((n - 1) / 2)%nat.

(** The coordinate of point [i] on an axis of [n] points:
    [np.linspace(-n2, n2, n)[i]] with [n2 = (n - 1) / 2]. *)
Definition axis_point (n i : nat) : float :=
  linspace_item (- half (Z.of_nat n - 1)) (half (Z.of_nat n - 1)) n i.


(** The argument [gaussian_3d] hands to [np.exp] for the element at
    [(i, j, k)]. *)
Definition exponent_at (nx ny nz : nat) (sgm : sigma) (i j k : nat) : float :=
  let '(sx, sy, sz) := unpack_sigma sgm in
  exponent_3d sx sy sz (axis_point nx i) (axis_point ny j) (axis_point nz k).

(** The sizes up to which [float(n)] holds every integer exactly. *)
Definition size_limit : Z := 2 ^ 53.

(** The three divisors [2 * s * s] are positive doubles: none is NaN and
    none has gone to zero. *)
Definition divisors_positive (sgm : sigma) : Prop :=
  let '(sx, sy, sz) := unpack_sigma sgm in
  (0 <? 2 * sx * sx) = true /\ (0 <? 2 * sy * sy) = true
  /\ (0 <? 2 * sz * sz) = true.


(** A stand-in for [np.exp] that is right at the zeros, the infinities and
    NaN and crude in between: it shows that what is assumed of [np.exp]
    below can be met. *)
Definition coarse_exp (x : float) : float :=
  match Prim2SF x with
  | S754_zero _ => 1
  | S754_infinity true => 0
  | S754_infinity false => infinity
  | S754_nan => nan
  | S754_finite true _ _ => 0.5
  | S754_finite false _ _ => 2
  end.

End Gaussian.

(* ================================================================== *)
(** ** The exception classes *)

Module Errors.
Local Open Scope string_scope.

Definition nl : string := String "010"%char EmptyString.
Definition tab : string := String "009"%char EmptyString.

Inductive error_kind : Type :=
| StationFileHeaderException
| VelocityModelFileHeaderException
| ArchiveEmptyException
| NoScanMseedDataException
| NoStationAvailabilityDataException
| DataGapException
| ChannelNameException
| BadUpfactorException
| OnsetTypeError
| PickerTypeError
| TimeSpanException
| InvalidThresholdMethodException.

Definition all_kinds : list error_kind :=
  [StationFileHeaderException; VelocityModelFileHeaderException;
   ArchiveEmptyException; NoScanMseedDataException;
   NoStationAvailabilityDataException; DataGapException;
   ChannelNameException; BadUpfactorException; OnsetTypeError;
   PickerTypeError; TimeSpanException; InvalidThresholdMethodException].

(** The name of the class, as [class ...(Exception)] spells it. *)
Definition class_name (k : error_kind) : string :=
  match k with
  | StationFileHeaderException => "StationFileHeaderException"
  | VelocityModelFileHeaderException => "VelocityModelFileHeaderException"
  | ArchiveEmptyException => "ArchiveEmptyException"
  | NoScanMseedDataException => "NoScanMseedDataException"
  | NoStationAvailabilityDataException => "NoStationAvailabilityDataException"
  | DataGapException => "DataGapException"
  | ChannelNameException => "ChannelNameException"
  | BadUpfactorException => "BadUpfactorException"
  | OnsetTypeError => "OnsetTypeError"
  | PickerTypeError => "PickerTypeError"
  | TimeSpanException => "TimeSpanException"
  | InvalidThresholdMethodException => "InvalidThresholdMethodException"
  end.

(** The [msg] handed to [super().__init__]: adjacent literals are written
    as the source breaks them.  [trace] is the text [format] puts in for
    the two classes that take a trace. *)
Definition primary_message (k : error_kind) (trace : string) : string :=
  match k with
  | StationFileHeaderException =>
      "StationFileHeaderException: incorrect station file header - "
      ++ "use:" ++ nl ++ "Latitude, Longitude, Elevation, Name"
  | VelocityModelFileHeaderException =>
      "VelocityModelFileHeaderException: incorrect velocity model "
      ++ "file header - use:" ++ nl ++ "Depth, Vp, Vs"
  | ArchiveEmptyException =>
      "ArchiveEmptyException: No data was available for this timestep."
  | NoScanMseedDataException =>
      "NoScanMseedDataException: No .scanmseed data found."
  | NoStationAvailabilityDataException =>
      "NoStationAvailabilityDataException: No .StationAvailability "
      ++ "files found."
  | DataGapException =>
      "DataGapException: All available data had gaps for this "
      ++ "timestep." ++ nl ++ "    OR: no data present in the archive for the"
      ++ "selected stations."
  | ChannelNameException =>
      "ChannelNameException: Channel name header does not conform "
      ++ "to" ++ nl ++ "the IRIS SEED standard - 3 characters; ending in 'Z' for" ++ nl
      ++ "vertical and ending either 'E' & 'N' or '1' & '2' for" ++ nl
      ++ "horizontal components." ++ nl ++ "    Working on trace: " ++ trace
  | BadUpfactorException =>
      "BadUpfactorException: chosen upfactor cannot be decimated to" ++ nl
      ++ "target sampling rate." ++ nl ++ "    Working on trace: " ++ trace
  | OnsetTypeError =>
      "OnsetTypeError: The Onset object you have created does not "
      ++ "inherit from the required base class - see manual."
  | PickerTypeError =>
      "PickerTypeError: The PhasePicker object you have created does"
      ++ "not inherit from the required base class - see manual."
  | TimeSpanException =>
      "TimeSpanException: The start time specified is after the end"
      ++ " time."
  | InvalidThresholdMethodException =>
      "InvalidThresholdMethodException: Only 'static' or 'dynamic' "
      ++ "thresholds are supported."
  end.

(** The [self.msg] attribute, the additional message printed to the log;
    [None] for a class that sets none. *)
Definition log_message (k : error_kind) : option string :=
  match k with
  | ArchiveEmptyException =>
      Some (tab ++ tab ++ "No files found in archive for this time period.")
  | DataGapException =>
      Some (tab ++ tab ++ "All available data for this time period contains gaps"
            ++ nl ++ tab ++ tab
            ++ "or data not available at start/end of time period")
  | _ => None
  end.

(** The primary message as the table of the documentation prints it, for
    the conditions whose text the table gives. *)
Definition table_primary (k : error_kind) : option string :=
  match k with
  | StationFileHeaderException =>
      Some ("incorrect station file header - use:" ++ nl
            ++ "Latitude, Longitude, Elevation, Name")
  | VelocityModelFileHeaderException =>
      Some ("incorrect velocity model file header - use:" ++ nl
            ++ "Depth, Vp, Vs")
  | ArchiveEmptyException => Some "No data was available for this timestep."
  | NoScanMseedDataException => Some "No .scanmseed data found."
  | NoStationAvailabilityDataException =>
      Some "No .StationAvailability files found."
  | DataGapException =>
      Some ("All available data had gaps for this timestep." ++ nl
            ++ " OR: no data present in the archive for the selected stations.")
  | _ => None
  end.

(** [s.startswith(p)] *)
Definition startswith (s p : string) : bool := String.prefix p s.

(** [p in s] *)
Definition contains (s p : string) : bool :=
  match String.index 0 p s with Some _ => true | None => false end.

(** [s.endswith(p)] *)
Definition endswith (s p : string) : bool :=
  (Nat.leb (String.length p) (String.length s)
   && String.eqb
        (substring (String.length s - String.length p) (String.length p) s)
        p)%bool.

End Errors.

(* ================================================================== *)
(** ** Directories *)

Module Directories.

(** A path as its components, the last one first; [[]] is the root.  The
    parent of a path is its tail. *)
Definition path := list string.

Inductive node : Type := Dir | File.

(** The file system: what is at each path. *)
Definition filesystem := path -> option node.

Inductive os_error : Type :=
| FileNotFoundError
| NotADirectoryError
| FileExistsError.

Definition path_eqb (p q : path) : bool :=
  if list_eq_dec string_dec p q then true else false.

Definition add_dir (fs : filesystem) (p : path) : filesystem :=
  fun q => if path_eqb q p then Some Dir else fs q.

(** Resolving [p] as a directory, from the root down: the first component
    that is missing gives [FileNotFoundError], the first that is not a
    directory [NotADirectoryError]; [None] when [p] is a directory. *)
Fixpoint resolve_dir (fs : filesystem) (p : path) : option os_error :=
  match p with
  | [] => None
  | _ :: parent =>
      match resolve_dir fs parent with
      | Some e => Some e
      | None =>
          match fs p with
          | None => Some FileNotFoundError
          | Some File => Some NotADirectoryError
          | Some Dir => None
          end
      end
  end.

(** [Path.is_dir()] *)
Definition is_dir (fs : filesystem) (p : path) : bool :=
  match resolve_dir fs p with None => true | Some _ => false end.

(** [os.mkdir(p)]: the parent has to be a directory and [p] must not
    exist. *)
Definition os_mkdir (fs : filesystem) (p : path)
  : filesystem * option os_error :=
  match p with
  | [] => (fs, Some FileExistsError)
  | _ :: parent =>
      match resolve_dir fs parent with
      | Some e => (fs, Some e)
      | None =>
          match fs p with
          | Some _ => (fs, Some FileExistsError)
          | None => (add_dir fs p, None)
          end
      end
  end.

(** [Path.mkdir(parents=False, exist_ok=...)]: [os.mkdir]; a
    [FileNotFoundError] is raised again, any other error is dropped when
    [exist_ok] is set and the path is a directory. *)
Definition mkdir (exist_ok : bool) (fs : filesystem) (p : path)
  : filesystem * option os_error :=
  match os_mkdir fs p with
  | (fs', None) => (fs', None)
  | (_, Some FileNotFoundError) => (fs, Some FileNotFoundError)
  | (_, Some e) =>
      if (exist_ok && is_dir fs p)%bool then (fs, None) else (fs, Some e)
  end.

(** [Path.mkdir(parents=True, exist_ok=...)]: on [FileNotFoundError] the
    parent is made first, with [parents=True, exist_ok=True], and then the
    path itself without [parents]. *)
Fixpoint mkdir_parents (exist_ok : bool) (fs : filesystem) (p : path)
  : filesystem * option os_error :=
  match os_mkdir fs p with
  | (fs', None) => (fs', None)
  | (_, Some FileNotFoundError) =>
      match p with
      | [] => (fs, Some FileNotFoundError)
      | _ :: parent =>
          match mkdir_parents true fs parent with
          | (fs1, Some e) => (fs1, Some e)
          | (fs1, None) => mkdir exist_ok fs1 p
          end
      end
  | (_, Some e) =>
      if (exist_ok && is_dir fs p)%bool then (fs, None) else (fs, Some e)
  end.

(** [run / subdir], for a relative [subdir] given by its components. *)
Definition joinpath (run subdir : path) : path := subdir ++ run.

(** [make_directories(run, subdir)].  [subdir] is the list of the
    components of the string, empty for [None] and for the empty string,
    the two values [if subdir:] takes as false. *)
Definition make_directories (fs : filesystem) (run subdir : path)
  : filesystem * option os_error :=
  match mkdir true fs run with
  | (fs1, Some e) => (fs1, Some e)
  | (fs1, None) =>
      match subdir with
      | [] => (fs1, None)
      | _ :: _ => mkdir_parents true fs1 (joinpath run subdir)
      end
  end.

(** Everything in [fs] is in [fs'] as it was. *)
Definition extends (fs fs' : filesystem) : Prop :=
  forall (q : path) (n : node), fs q = Some n -> fs' q = Some n.

(** [fs'] is [fs] with some directories added where there was nothing. *)
Definition grows (fs fs' : filesystem) : Prop :=
  forall q : path, fs' q = fs q \/ (fs q = None /\ fs' q = Some Dir).

End Directories.

(* ================================================================== *)
(** * Properties *)

(** ** The error taxonomy *)

Section ErrorMessages.
Import Errors.
Local Open Scope string_scope.

Lemma all_kinds_complete : forall k : error_kind, In k all_kinds.
Proof. intros k; destruct k; simpl; tauto. Qed.

(** C9: every exception class of the taxonomy builds its primary message
    from its own class name, a colon and a space, followed by the
    human-readable text; so the primary message is never the bare text that
    the table of the documentation prints for that condition. *)
Theorem primary_message_has_class_prefix :
  forall (k : error_kind) (trace : string),
    startswith (primary_message k trace) (class_name k ++ ": ") = true
    /\ match table_primary k with
       | Some text => String.eqb (primary_message k trace) text = false
       | None => True
       end.
Proof.
  intros k trace; destruct k; split; vm_compute; (reflexivity || exact I).
Qed.

(** C6, as stated, fails: the primary message of [DataGapException] is not
    the text of the table, and does not even contain it. *)
Lemma DataGapException_primary_is_not_table_text :
  Some (primary_message DataGapException "") <> table_primary DataGapException
  /\ contains (primary_message DataGapException "")
       ("All available data had gaps for this timestep." ++ nl
        ++ " OR: no data present in the archive for the selected stations.")
     = false.
Proof.
  split; [ intros H; vm_compute in H; discriminate H | vm_compute; reflexivity ].
Qed.

(** C6, amended: the primary message of [DataGapException] begins with the
    class name and ["All available data had gaps for this timestep."],
    goes on after a newline and four spaces with ["OR: no data present in
    the archive for the"] and ends with ["selected stations."]; the log
    message [msg] begins with two tabs and ["All available data for this
    time period contains gaps"], hence is tab-indented, and ends with a
    second line, indented by two tabs as well, ["or data not available at
    start/end of time period"]. *)
Theorem DataGapException_messages :
  forall trace : string,
    startswith (primary_message DataGapException trace)
      ("DataGapException: All available data had gaps for this timestep."
       ++ nl ++ "    OR: no data present in the archive for the") = true
    /\ endswith (primary_message DataGapException trace) "selected stations."
       = true
    /\ match log_message DataGapException with
       | Some m =>
           startswith m
             (tab ++ tab
              ++ "All available data for this time period contains gaps")
           = true
           /\ startswith m tab = true
           /\ endswith m
                (nl ++ tab ++ tab
                 ++ "or data not available at start/end of time period")
              = true
       | None => False
       end.
Proof.
  intros trace; vm_compute; repeat split.
Qed.

End ErrorMessages.

(* ================================================================== *)
(** ** Sample arithmetic on binary64 *)

Section Binary64Runs.
Local Open Scope float_scope.

(** The literals of the runs below, as the interpreter reads them. *)
Lemma b64_products :
  2.01 * 100 = 200.99999999999997
  /\ 201 / 100 * 1000 = 2009.9999999999998
  /\ 1.1 * 100 = 110.00000000000001
  /\ 1.11 * 100 = 111.00000000000001.
Proof. vm_compute. repeat split. Qed.

(** C1: the claim asks that [trim2sample(t, r)] is never below [t] and is a
    whole number of samples at rate [r].  At 100 Hz the call
    [trim2sample(2.01, 100)] returns [2.009]: below the requested 2.01, and
    200.9 samples.  The product [201 / 100 * 1000] is [2009.9999999999998]
    and [int] cuts it to 2009. *)
Theorem trim2sample_2_01_at_100_falls_short :
  B64.trim2sample 2.01 100 = Some 2.009
  /\ (2.009 <? 2.01) = true
  /\ B64.np_ceil (2.009 * 100) = 201
  /\ (2.009 * 100 <? 201) = true.
Proof. vm_compute. repeat split. Qed.

(** C7: the claim asks that a second application changes nothing.  At
    100 Hz [trim2sample(1.1, 100)] is [1.11], and [trim2sample(1.11, 100)]
    is [1.12]: each product lands just above a whole number and [np.ceil]
    moves it one sample up. *)
Theorem trim2sample_1_1_at_100_not_idempotent :
  B64.trim2sample 1.1 100 = Some 1.11
  /\ B64.trim2sample 1.11 100 = Some 1.12
  /\ (1.11 =? 1.12) = false.
Proof. vm_compute. repeat split. Qed.

(** The scenarios of the documentation, run on binary64; and a whole rate
    that does not divide 1000, where the cut to milliseconds alone takes the
    result below the time asked for. *)
Lemma b64_scenarios :
  B64.trim2sample 1.003 100 = Some 1.01
  /\ B64.trim2sample 0.0124 80 = Some 0.012
  /\ (0.012 <? 0.0124) = true
  /\ B64.time2sample 1.5 100 = Some 150%Z
  /\ B64.time2sample (-1.5) 100 = Some (-150)%Z
  /\ B64.time2sample 0.5 1 = Some 0%Z
  /\ B64.time2sample 2.5 1 = Some 2%Z
  /\ B64.time2sample 3.5 1 = Some 4%Z.
Proof. vm_compute. repeat split. Qed.

End Binary64Runs.

(* ================================================================== *)
(** ** What the binary64 results are, exactly *)

Section Binary64Exact.
Import Rational.
Local Open Scope Q_scope.

(** [round_half_even] returns a nearest integer, and on a tie the even one. *)
Lemma round_half_even_nearest (x : Q) :
  Qabs (inject_Z (round_half_even x) - x) <= 1 # 2
  /\ (Qabs (inject_Z (round_half_even x) - x) == 1 # 2 ->
      Z.even (round_half_even x) = true).
Proof.
  unfold round_half_even.
  pose proof (Qfloor_le x) as Hlo. pose proof (Qlt_floor x) as Hhi.
  set (f := Qfloor x) in *.
  assert (Hf1 : inject_Z (f + 1) == inject_Z f + 1)
    by (rewrite inject_Z_plus; reflexivity).
  rewrite Hf1 in Hhi.
  destruct (Qcompare (x - inject_Z f) (1 # 2)) eqn:Hc.
  - apply Qeq_alt in Hc.
    destruct (Z.even f) eqn:He.
    + split; [ apply Qabs_Qle_condition; lra | intros _; exact He ].
    + split.
      * rewrite Hf1. apply Qabs_Qle_condition; lra.
      * intros _. rewrite Z.even_add, He. reflexivity.
  - apply Qlt_alt in Hc. split.
    + apply Qabs_Qle_condition; lra.
    + intros Habs. exfalso.
      rewrite Qabs_neg in Habs by lra. lra.
  - apply Qgt_alt in Hc. split.
    + rewrite Hf1. apply Qabs_Qle_condition; lra.
    + intros Habs. exfalso. rewrite Hf1 in Habs.
      rewrite Qabs_pos in Habs by lra. lra.
Qed.


(** [int] of a double is the integer part of the number it stands for, and
    raises exactly when the double is NaN or infinite. *)
Lemma b64_py_int_exact (x : float) :
  B64.py_int x = option_map truncate (B64.value x).
Proof.
  unfold B64.py_int, B64.value.
  destruct (Prim2SF x) as [s | s | | s m e]; try reflexivity.
  cbn [option_map]. f_equal.
  destruct (0 <=? e)%Z eqn:He.
  - unfold truncate. cbn [inject_Z Qnum Qden]. rewrite Z.quot_1_r.
    destruct s; [ | reflexivity ].
    change (Z.neg m) with (- Z.pos m)%Z. lia.
  - apply Z.leb_gt in He.
    assert (Hd : (0 < 2 ^ (- e))%Z) by (apply Z.pow_pos_nonneg; lia).
    unfold truncate. cbn [Qnum Qden]. rewrite (Z2Pos.id _ Hd).
    destruct s.
    + change (Z.neg m) with (- Z.pos m)%Z.
      rewrite Z.quot_opp_l by lia. f_equal.
      symmetry. apply Z.quot_div_nonneg; lia.
    + symmetry. apply Z.quot_div_nonneg; lia.
Qed.

Lemma round_half_even_opp (x : Q) :
  round_half_even (- x) = (- round_half_even x)%Z.
Proof.
  destruct (round_half_even_nearest x) as [Hr He].
  destruct (round_half_even_nearest (- x)) as [Hr' He'].
  set (a := round_half_even x) in *. set (b := round_half_even (- x)) in *.
  assert (Ha := proj1 (Qabs_Qle_condition _ _) Hr).
  assert (Hb := proj1 (Qabs_Qle_condition _ _) Hr').
  assert (Hd1 : inject_Z (a + b) <= inject_Z 1)
    by (rewrite inject_Z_plus; change (inject_Z 1) with 1; lra).
  assert (Hd2 : inject_Z (- 1) <= inject_Z (a + b))
    by (rewrite inject_Z_plus; change (inject_Z (- 1)) with (- (1)); lra).
  rewrite <- Zle_Qle in Hd1, Hd2.
  destruct (Z.eq_dec (a + b) 0) as [H0 | Hne]; [ lia | exfalso ].
  assert (Hcase : (b = - a + 1 \/ b = - a - 1)%Z) by lia.
  destruct Hcase as [H1 | H1].
  - assert (Hbq : inject_Z b == - inject_Z a + 1)
      by (rewrite H1, inject_Z_plus, inject_Z_opp; reflexivity).
    assert (Hxa : Qabs (inject_Z a - x) == 1 # 2)
      by (rewrite Qabs_pos by lra; lra).
    assert (Hxb : Qabs (inject_Z b - - x) == 1 # 2)
      by (rewrite Qabs_pos by lra; lra).
    specialize (He Hxa). specialize (He' Hxb).
    rewrite H1, Z.even_add, Z.even_opp, He in He'. discriminate He'.
  - assert (Hbq : inject_Z b == - inject_Z a - 1).
    { rewrite H1. unfold Z.sub. rewrite inject_Z_plus, !inject_Z_opp.
      change (inject_Z 1) with 1. ring. }
    assert (Hxa : Qabs (inject_Z a - x) == 1 # 2)
      by (rewrite Qabs_neg by lra; lra).
    assert (Hxb : Qabs (inject_Z b - - x) == 1 # 2)
      by (rewrite Qabs_neg by lra; lra).
    specialize (He Hxa). specialize (He' Hxb).
    rewrite H1, Z.even_sub, Z.even_opp, He in He'. discriminate He'.
Qed.

Lemma round_half_even_inject_Z (n : Z) : round_half_even (inject_Z n) = n.
Proof.
  unfold round_half_even. rewrite Qfloor_Z.
  replace (Qcompare (inject_Z n - inject_Z n) (1 # 2)) with Lt; [ reflexivity | ].
  symmetry. apply (proj1 (Qlt_alt _ _)). unfold Qlt. simpl. lia.
Qed.

(** The rounding of a positive double with a negative exponent, as
    [B64.py_round] does it on the mantissa. *)
Lemma round_half_even_dyadic (m : positive) (d : Z) :
  (0 < d)%Z ->
  round_half_even (Qmake (Z.pos m) (Z.to_pos d))
  = match (2 * (Z.pos m mod d) ?= d)%Z with
    | Lt => (Z.pos m / d)%Z
    | Gt => (Z.pos m / d + 1)%Z
    | Eq => if Z.even (Z.pos m / d) then (Z.pos m / d)%Z else (Z.pos m / d + 1)%Z
    end.
Proof.
  intros Hd. unfold round_half_even.
  assert (Hf : Qfloor (Qmake (Z.pos m) (Z.to_pos d)) = (Z.pos m / d)%Z).
  { unfold Qfloor. rewrite (Z2Pos.id _ Hd). reflexivity. }
  rewrite Hf.
  assert (Hc : Qcompare (Qmake (Z.pos m) (Z.to_pos d) - inject_Z (Z.pos m / d)) (1 # 2)
               = (2 * (Z.pos m mod d) ?= d)%Z).
  { unfold Qcompare. cbn [Qminus Qplus Qopp inject_Z Qnum Qden].
    rewrite Z.mod_eq by lia.
    rewrite Pos2Z.inj_mul, (Z2Pos.id _ Hd).
    set (q := (Z.pos m / d)%Z).
    replace ((Z.pos m * 1 + - q * d) * 2)%Z with (2 * (Z.pos m - d * q))%Z by ring.
    replace (1 * (d * 1))%Z with d by ring. reflexivity. }
  rewrite Hc. reflexivity.
Qed.

(** [round] of a double is the nearest integer, ties to even, of the number
    it stands for, and raises exactly when the double is NaN or infinite. *)
Lemma b64_py_round_exact (x : float) :
  B64.py_round x = option_map round_half_even (B64.value x).
Proof.
  unfold B64.py_round, B64.value.
  destruct (Prim2SF x) as [s | s | | s m e]; try reflexivity.
  cbn [option_map]. f_equal.
  destruct (0 <=? e)%Z eqn:He.
  - rewrite round_half_even_inject_Z.
    destruct s; [ | reflexivity ].
    change (Z.neg m) with (- Z.pos m)%Z. lia.
  - apply Z.leb_gt in He.
    assert (Hd : (0 < 2 ^ (- e))%Z) by (apply Z.pow_pos_nonneg; lia).
    destruct s.
    + change (Qmake (Z.neg m) (Z.to_pos (2 ^ (- e))))
        with (- Qmake (Z.pos m) (Z.to_pos (2 ^ (- e)))).
      rewrite round_half_even_opp, (round_half_even_dyadic m _ Hd). reflexivity.
    + rewrite (round_half_even_dyadic m _ Hd). reflexivity.
Qed.

(** [time2sample], exactly: the rate is cut to an integer, the time is
    multiplied by it in binary64, and the product is rounded to the nearest
    integer, ties to even; the call raises when the rate or the product is
    NaN or infinite. *)
Lemma b64_time2sample_exact (t r : float) :
  B64.time2sample t r
  = match B64.value r with
    | None => None
    | Some qr =>
        option_map round_half_even
          (B64.value (t * B64.float_of_int (truncate qr))%float)
    end.
Proof.
  unfold B64.time2sample, B64.int_of_int.
  rewrite b64_py_int_exact.
  destruct (B64.value r) as [qr |]; [ | reflexivity ].
  cbn [option_map]. rewrite b64_py_round_exact.
  destruct (B64.value _); reflexivity.
Qed.

(** [trim2sample], exactly: the ceiling of the product, the division by
    the rate and the multiplication by 1000 are binary64 operations; the
    double they give is cut to its integer part, and that integer is divided
    by 1000. *)
Lemma b64_trim2sample_exact (t r : float) :
  B64.trim2sample t r
  = option_map (fun q => (B64.float_of_int (truncate q) / 1000)%float)
      (B64.value (B64.np_ceil (t * r) / r * 1000)%float).
Proof.
  unfold B64.trim2sample. rewrite b64_py_int_exact.
  destruct (B64.value _); reflexivity.
Qed.




(** C3, as stated, fails at a whole rate: at 100 Hz a time of 0.015 s gives
    the binary64 product 1.5, a tie, and [round] takes it to 2.  Two
    samples are 0.02 s, and 0.02 is farther from the double 0.015 than the
    half sample period 0.005, in exact arithmetic and as the doubles
    compare. *)
Lemma time2sample_misses_half_sample_at_whole_rate :
  B64.time2sample 0.015 100 = Some 2%Z
  /\ (0.015 * 100)%float = 1.5%float
  /\ (exists q : Q,
        B64.value 0.015 = Some q
        /\ ~ Qabs (inject_Z 2 / 100 - q) <= (1 # 2) / 100)
  /\ (abs (2 / 100 - 0.015) <=? 0.5 / 100)%float = false.
Proof.
  split; [ vm_compute; reflexivity | ].
  split; [ vm_compute; reflexivity | ].
  split; [ | vm_compute; reflexivity ].
  eexists. split; [ vm_compute; reflexivity | ].
  apply Qlt_not_le. vm_compute. reflexivity.
Qed.

(** C3, amended: [time2sample] cuts the sampling rate to an integer with
    [int], multiplies the time by it in binary64 and returns [round] of
    the product: the integer nearest to the number the product stands for,
    the even one on a tie.  The product has been rounded to a double
    before, so the count can miss [time * rate] by more than a half.  The
    call raises exactly when the rate or the product is NaN or infinite.
    [time2sample(1.5, 100)] is 150 and [time2sample(-1.5, 100)] is -150. *)
Theorem time2sample_rounds_at_truncated_rate (t r : float) :
  (B64.time2sample t r = None
   <-> B64.value r = None
       \/ exists qr : Q,
            B64.value r = Some qr
            /\ B64.value (t * B64.float_of_int (truncate qr))%float = None)
  /\ (forall n : Z,
        B64.time2sample t r = Some n ->
        exists qr q : Q,
          B64.value r = Some qr
          /\ B64.value (t * B64.float_of_int (truncate qr))%float = Some q
          /\ Qabs (inject_Z n - q) <= 1 # 2
          /\ (Qabs (inject_Z n - q) == 1 # 2 -> Z.even n = true))
  /\ B64.time2sample 1.5 100 = Some 150%Z
  /\ B64.time2sample (-1.5) 100 = Some (- 150)%Z.
Proof.
  rewrite b64_time2sample_exact.
  split; [ | split; [ | split; vm_compute; reflexivity ] ].
  - destruct (B64.value r) as [qr |].
    + destruct (B64.value (t * B64.float_of_int (truncate qr))%float)
        as [q |] eqn:Hq; cbn [option_map].
      * split; [ discriminate | ].
        intros [H | (qr' & H1 & H2)]; [ discriminate H | ].
        injection H1 as <-. rewrite Hq in H2. discriminate H2.
      * split; [ | reflexivity ].
        intros _. right. exists qr. split; [ reflexivity | exact Hq ].
    + split; [ intros _; now left | reflexivity ].
  - intros n Hn. destruct (B64.value r) as [qr |]; [ | discriminate Hn ].
    destruct (B64.value (t * B64.float_of_int (truncate qr))%float)
      as [q |] eqn:Hq; [ | discriminate Hn ].
    cbn [option_map] in Hn. injection Hn as <-.
    exists qr, q. split; [ reflexivity | ]. split; [ exact Hq | ].
    apply round_half_even_nearest.
Qed.

Lemma time2sample_rounds_at_truncated_rate_witness :
  exists qr q : Q,
    B64.value 100 = Some qr
    /\ B64.value (0.015 * B64.float_of_int (truncate qr))%float = Some q
    /\ Qabs (inject_Z 2 - q) <= 1 # 2
    /\ (Qabs (inject_Z 2 - q) == 1 # 2 -> Z.even 2 = true).
Proof.
  refine (proj1 (proj2 (time2sample_rounds_at_truncated_rate 0.015 100))
            2%Z _).
  vm_compute. reflexivity.
Defined.

(** A double that is not whole is not what [int] makes of it. *)
Lemma truncate_fractional (q : Q) :
  ~ is_integer q -> ~ inject_Z (truncate q) == q.
Proof.
  intros Hfrac Heq. apply Hfrac. exists (truncate q). symmetry. exact Heq.
Qed.

(** C10: [time2sample] cuts the sampling rate to an integer first and
    multiplies the time by the cut rate: two rates with the same integer
    part give the same count, and the count is [round] of the binary64
    product of the time and [float(int(rate))].  [trim2sample] multiplies
    and divides by the rate as given.  For a rate that is not whole the cut
    rate is a different number, and the result of [trim2sample] need not be
    a whole number of samples at it: at 2.5 Hz ten seconds are 20 samples
    for [time2sample], not 25; [trim2sample(0.3, 2.5)] is 0.4, which is 0.8
    samples at the cut rate 2, and differs from [trim2sample(0.3, 2)],
    which is 0.5. *)
Theorem time2sample_cuts_rate_trim2sample_keeps_it (t r : float) (qr : Q) :
  B64.value r = Some qr ->
  (forall r' : float,
      B64.py_int r' = B64.py_int r ->
      B64.time2sample t r' = B64.time2sample t r)
  /\ B64.py_int r = Some (truncate qr)
  /\ B64.time2sample t r
     = option_map round_half_even
         (B64.value (t * B64.float_of_int (truncate qr))%float)
  /\ B64.trim2sample t r
     = option_map (fun q => (B64.float_of_int (truncate q) / 1000)%float)
         (B64.value (B64.np_ceil (t * r) / r * 1000)%float)
  /\ (~ is_integer qr -> ~ inject_Z (truncate qr) == qr)
  /\ B64.time2sample 10 2.5 = Some 20%Z
  /\ B64.time2sample 10 2 = Some 20%Z
  /\ B64.trim2sample 0.3 2.5 = Some 0.4%float
  /\ B64.trim2sample 0.3 2 = Some 0.5%float
  /\ (0.4 * 2)%float = 0.8%float
  /\ (B64.np_ceil (0.4 * 2) =? 0.4 * 2)%float = false.
Proof.
  intros Hr. split.
  { intros r' Hr'. unfold B64.time2sample. rewrite Hr'. reflexivity. }
  split; [ rewrite b64_py_int_exact, Hr; reflexivity | ].
  split; [ rewrite b64_time2sample_exact, Hr; reflexivity | ].
  split; [ apply b64_trim2sample_exact | ].
  split; [ apply truncate_fractional | ].
  vm_compute. repeat split.
Qed.

Lemma time2sample_cuts_rate_trim2sample_keeps_it_witness :
  B64.py_int 2.5 = Some 2%Z
  /\ B64.time2sample 10 2.5
     = option_map round_half_even
         (B64.value (10 * B64.float_of_int 2)%float).
Proof.
  assert (Hr : B64.value 2.5 = Some (Qmake 5629499534213120 (Z.to_pos (2 ^ 51))))
    by (vm_compute; reflexivity).
  pose proof (time2sample_cuts_rate_trim2sample_keeps_it 10 2.5 _ Hr)
    as (_ & H1 & H2 & _).
  split; [ exact H1 | exact H2 ].
Defined.

End Binary64Exact.

(* ================================================================== *)
(** ** Sign symmetry on binary64 *)

Section Binary64Symmetry.
Local Open Scope Z_scope.

Lemma binary_round_aux_negb (s : bool) (m e : Z) (l : location) :
  binary_round_aux prec emax (negb s) m e l
  = SFopp (binary_round_aux prec emax s m e l).
Proof.
  unfold binary_round_aux.
  destruct (shr_fexp prec emax m e l) as [mrs' e'].
  destruct (shr_fexp prec emax _ e' loc_Exact) as [mrs'' e''].
  destruct (shr_m mrs'') as [| p | p]; try reflexivity.
  destruct (e'' <=? emax - prec); reflexivity.
Qed.

Lemma SFmul_opp_l (x y : spec_float) :
  SFmul prec emax (SFopp x) y = SFopp (SFmul prec emax x y).
Proof.
  destruct x as [sx | sx | | sx mx ex], y as [sy | sy | | sy my ey];
    simpl; try reflexivity;
    try (destruct sx, sy; reflexivity).
  rewrite <- binary_round_aux_negb. destruct sx, sy; reflexivity.
Qed.

Lemma b64_mul_opp_l (x y : float) :
  Prim2SF (- x * y)%float = SFopp (Prim2SF (x * y)%float).
Proof.
  rewrite !mul_spec, opp_spec. apply SFmul_opp_l.
Qed.

(** [round] of a double through its sign, mantissa and exponent. *)
Lemma b64_py_round_opp (x y : float) :
  Prim2SF y = SFopp (Prim2SF x) ->
  B64.py_round y = option_map Z.opp (B64.py_round x).
Proof.
  intros H. unfold B64.py_round. rewrite H.
  destruct (Prim2SF x) as [s | s | | s m e]; simpl; try reflexivity.
  destruct s; simpl; f_equal; lia.
Qed.

(** X1: on binary64 a negated time gives the negated count, and the call
    on the negated time raises exactly when the call on the time does. *)
Theorem b64_time2sample_odd_in_time (t r : float) :
  B64.time2sample (- t)%float r = option_map Z.opp (B64.time2sample t r).
Proof.
  unfold B64.time2sample. destruct (B64.py_int r) as [ri |]; [ | reflexivity ].
  rewrite (b64_py_round_opp (t * B64.float_of_int ri)%float
             (- t * B64.float_of_int ri)%float (b64_mul_opp_l _ _)).
  destruct (B64.py_round (t * B64.float_of_int ri)%float); reflexivity.
Qed.


Lemma b64_zero_is_zero :
  B64.float_of_int 0 = 0%float /\ Prim2SF 0%float = S754_zero false.
Proof. split; vm_compute; reflexivity. Qed.

(** X5: when [int] cuts the rate to 0 the result is 0 samples for every
    finite time; for an infinite or NaN time the call raises, as [int] of
    that time does. *)
Theorem b64_time2sample_rate_cut_to_zero (t r : float) :
  B64.py_int r = Some 0 ->
  B64.time2sample t r = option_map (fun _ => 0) (B64.py_int t).
Proof.
  intros Hr. unfold B64.time2sample. rewrite Hr.
  rewrite (proj1 b64_zero_is_zero).
  unfold B64.py_round, B64.py_int.
  rewrite mul_spec, (proj2 b64_zero_is_zero).
  destruct (Prim2SF t) as [s | s | | s m e]; reflexivity.
Qed.

Lemma b64_time2sample_rate_cut_to_zero_witness :
  B64.time2sample 3600%float 0.5%float
  = option_map (fun _ => 0) (B64.py_int 3600%float).
Proof.
  apply b64_time2sample_rate_cut_to_zero. vm_compute. reflexivity.
Defined.

(** X8: with a sampling rate of 0 [trim2sample] raises for every time:
    the product is zero or NaN, the division by 0 gives NaN, and [int]
    refuses NaN. *)
Theorem b64_trim2sample_rate_zero_raises (t : float) :
  B64.trim2sample t 0%float = None.
Proof.
  unfold B64.trim2sample.
  set (y := (t * 0)%float).
  assert (Hy : Prim2SF y = S754_nan \/ exists s, Prim2SF y = S754_zero s).
  { unfold y. rewrite mul_spec, (proj2 b64_zero_is_zero).
    destruct (Prim2SF t) as [s | s | | s m e]; simpl;
      (now left) || (right; eexists; reflexivity). }
  assert (Hceil : B64.np_ceil y = y).
  { unfold B64.np_ceil. destruct Hy as [-> | [s ->]]; reflexivity. }
  rewrite Hceil.
  assert (Hdiv : Prim2SF (y / 0)%float = S754_nan).
  { rewrite div_spec, (proj2 b64_zero_is_zero).
    destruct Hy as [-> | [s ->]]; reflexivity. }
  unfold B64.py_int. rewrite mul_spec, Hdiv. reflexivity.
Qed.

End Binary64Symmetry.

(* ================================================================== *)
(** ** Operations that are exact *)

Section RoundingExact.
Local Open Scope Z_scope.

Lemma fexp_normal (x : Z) : -1021 <= x -> fexp prec emax x = x - 53.
Proof. intros H. unfold fexp, emin, prec, emax. lia. Qed.

(** Rounding a mantissa of 53 digits changes nothing. *)
Lemma round_canonical (s : bool) (M : positive) (E : Z) :
  digits2_pos M = 53%positive -> -1074 <= E <= 971 ->
  binary_round_aux prec emax s (Z.pos M) E loc_Exact = S754_finite s M E.
Proof.
  intros HM HE. unfold binary_round_aux, shr_fexp. cbn [Zdigits2].
  rewrite HM. rewrite fexp_normal by lia.
  replace (53 + E - 53 - E) with 0 by lia.
  cbn [shr shr_record_of_loc shr_m loc_of_shr_record round_nearest_even Zdigits2].
  rewrite HM. rewrite fexp_normal by lia.
  replace (53 + E - 53 - E) with 0 by lia.
  cbn [shr shr_record_of_loc shr_m].
  replace (E <=? emax - prec) with true; [ reflexivity | ].
  symmetry. apply Z.leb_le. unfold emax, prec. lia.
Qed.

(** One trailing zero bit is shifted out. *)
Lemma round_canonical_1 (s : bool) (M : positive) (E : Z) :
  digits2_pos M = 53%positive -> -1073 <= E <= 971 ->
  binary_round_aux prec emax s (Z.pos M~0) (E - 1) loc_Exact = S754_finite s M E.
Proof.
  intros HM HE. unfold binary_round_aux, shr_fexp. cbn [Zdigits2 digits2_pos].
  rewrite HM. rewrite fexp_normal by lia.
  replace (Z.pos (Pos.succ 53) + (E - 1) - 53 - (E - 1)) with 1 by lia.
  cbn [shr shr_record_of_loc iter_pos shr_1 shr_m shr_r shr_s orb loc_of_shr_record round_nearest_even Zdigits2].
  rewrite HM. rewrite fexp_normal by lia.
  replace (E - 1 + 1) with E by lia.
  replace (53 + E - 53 - E) with 0 by lia.
  cbn [shr shr_record_of_loc shr_m].
  replace (E <=? emax - prec) with true; [ reflexivity | ].
  symmetry. apply Z.leb_le. unfold emax, prec. lia.
Qed.

Lemma digits2_pos_iter (k d : positive) :
  Z.pos (digits2_pos (Pos.iter xO k d)) = Z.pos (digits2_pos k) + Z.pos d.
Proof.
  revert k. induction d using Pos.peano_ind; intros k.
  - cbn [Pos.iter digits2_pos]. lia.
  - rewrite Pos.iter_succ. cbn [digits2_pos]. rewrite Pos2Z.inj_succ, IHd. lia.
Qed.

(** So are 52 of them: the product with the mantissa of 1.0. *)
Lemma round_canonical_52 (s : bool) (M : positive) (E : Z) :
  digits2_pos M = 53%positive -> -1074 <= E <= 971 ->
  binary_round_aux prec emax s (Z.pos (M * 4503599627370496)) (E + -52) loc_Exact
  = S754_finite s M E.
Proof.
  intros HM HE. rewrite Pos.mul_comm. cbn [Pos.mul].
  unfold binary_round_aux, shr_fexp. cbn [Zdigits2 digits2_pos].
  rewrite HM.
  match goal with
  | |- context [Z.pos ?p + (E + -52)] =>
      let v := eval vm_compute in p in change p with v
  end.
  rewrite fexp_normal by lia.
  replace (105 + (E + -52) - 53 - (E + -52)) with 52 by lia.
  cbn [shr shr_record_of_loc iter_pos shr_1 shr_m shr_r shr_s orb loc_of_shr_record round_nearest_even Zdigits2].
  rewrite HM. rewrite fexp_normal by lia.
  replace (E + -52 + 52) with E by lia.
  replace (53 + E - 53 - E) with 0 by lia.
  cbn [shr shr_record_of_loc shr_m].
  replace (E <=? emax - prec) with true; [ reflexivity | ].
  symmetry. apply Z.leb_le. unfold emax, prec. lia.
Qed.

Lemma div_eucl_exact (a b q : Z) : 0 < b -> a = q * b -> Z.div_eucl a b = (q, 0).
Proof.
  intros Hb Ha. pose proof (Z.div_eucl_eq a b ltac:(lia)) as H.
  assert (Hq : a / b = q) by (subst a; apply Z.div_mul; lia).
  assert (Hr : a mod b = 0) by (subst a; apply Z.mod_mul; lia).
  unfold Z.div, Z.modulo in Hq, Hr. destruct (Z.div_eucl a b) as [q' r'].
  cbn in Hq, Hr. now subst.
Qed.

Lemma new_location_exact (n : Z) : new_location n 0 = loc_Exact.
Proof.
  unfold new_location, new_location_even, new_location_odd.
  destruct (Z.even n); reflexivity.
Qed.

(** A normal double divided by itself is 1.0. *)
Lemma SFdiv_self (M : positive) (E : Z) :
  digits2_pos M = 53%positive ->
  SFdiv prec emax (S754_finite false M E) (S754_finite false M E)
  = S754_finite false 4503599627370496 (-52).
Proof.
  intros HM. cbn [SFdiv xorb]. unfold SFdiv_core_binary. cbn [Zdigits2].
  rewrite HM.
  replace (53 + E - (53 + E)) with 0 by lia.
  replace (E - E) with 0 by lia.
  change (Z.min (fexp prec emax 0) 0) with (-53).
  change (0 - -53) with 53. cbv beta iota zeta.
  rewrite (div_eucl_exact (Z.shiftl (Z.pos M) 53) (Z.pos M) (2 ^ 53));
    [ | lia | rewrite Z.shiftl_mul_pow2 by lia; lia ].
  rewrite new_location_exact. vm_compute. reflexivity.
Qed.

(** A normal double divided by 2.0 loses one in the exponent. *)
Lemma SFdiv_two (M : positive) (E : Z) :
  digits2_pos M = 53%positive -> -1000 <= E <= 900 ->
  SFdiv prec emax (S754_finite false M (E + 1))
    (S754_finite false 4503599627370496 (-51))
  = S754_finite false M E.
Proof.
  intros HM HE. cbn [SFdiv xorb]. unfold SFdiv_core_binary. cbn [Zdigits2].
  rewrite HM. change (Z.pos (digits2_pos 4503599627370496)) with 53.
  replace (53 + (E + 1) - (53 + -51)) with (E + 52) by lia.
  replace (E + 1 - -51) with (E + 52) by lia.
  rewrite fexp_normal by lia.
  replace (Z.min (E + 52 - 53) (E + 52)) with (E - 1) by lia.
  replace (E + 52 - (E - 1)) with 53 by lia. cbv beta iota zeta.
  rewrite (div_eucl_exact (Z.shiftl (Z.pos M) 53) 4503599627370496 (Z.pos M~0));
    [ | lia | rewrite Z.shiftl_mul_pow2 by lia; lia ].
  rewrite new_location_exact. apply round_canonical_1; [ exact HM | lia ].
Qed.

(** [h - (-h)] is twice [h]. *)
Lemma SFsub_opp (M : positive) (E : Z) :
  digits2_pos M = 53%positive -> -1000 <= E <= 900 ->
  SFsub prec emax (S754_finite false M E) (S754_finite true M E)
  = S754_finite false M (E + 1).
Proof.
  intros HM HE. cbn [SFsub cond_Zopp]. rewrite Z.min_id.
  unfold shl_align. rewrite Z.sub_diag. cbn [fst].
  change (Z.pos M - - Z.pos M) with (Z.pos M - Z.neg M).
  replace (Z.pos M - Z.neg M) with (Z.pos M~0) by lia.
  unfold binary_normalize, binary_round. cbn [digits2_pos].
  rewrite HM. rewrite fexp_normal by lia.
  unfold shl_align.
  replace (Z.pos (Pos.succ 53) + E - 53 - E) with 1 by lia.
  replace E with (E + 1 - 1) at 1 by lia.
  apply round_canonical_1; [ exact HM | lia ].
Qed.

(** [m + (-m)] is +0. *)
Lemma SFadd_opp (M : positive) (E : Z) :
  SFadd prec emax (S754_finite false M E) (S754_finite true M E)
  = S754_zero false.
Proof.
  cbn [SFadd cond_Zopp]. rewrite Z.min_id.
  unfold shl_align. rewrite Z.sub_diag. cbn [fst].
  replace (Z.pos M + - Z.pos M) with 0 by lia. reflexivity.
Qed.

Lemma SFmul_one (M : positive) (E : Z) :
  digits2_pos M = 53%positive -> -1074 <= E <= 971 ->
  SFmul prec emax (S754_finite false M E) (S754_finite false 4503599627370496 (-52))
  = S754_finite false M E.
Proof.
  intros HM HE. cbn [SFmul xorb]. apply round_canonical_52; assumption.
Qed.

Lemma digits2_pos_lower (k : positive) :
  2 ^ (Z.pos (digits2_pos k) - 1) <= Z.pos k.
Proof.
  induction k as [p IH | p IH | ]; cbn [digits2_pos].
  - rewrite Pos2Z.inj_succ.
    replace (Z.succ (Z.pos (digits2_pos p)) - 1)
      with (Z.succ (Z.pos (digits2_pos p) - 1)) by lia.
    rewrite Z.pow_succ_r by lia. lia.
  - rewrite Pos2Z.inj_succ.
    replace (Z.succ (Z.pos (digits2_pos p)) - 1)
      with (Z.succ (Z.pos (digits2_pos p) - 1)) by lia.
    rewrite Z.pow_succ_r by lia. lia.
  - cbn. lia.
Qed.

Lemma digits2_pos_bound (k : positive) (n : Z) :
  0 <= n -> Z.pos k < 2 ^ n -> Z.pos (digits2_pos k) <= n.
Proof.
  intros Hn Hk. pose proof (digits2_pos_lower k) as Hl.
  destruct (Z_le_gt_dec (Z.pos (digits2_pos k)) n) as [H | H]; [ exact H | exfalso ].
  assert (2 ^ n <= 2 ^ (Z.pos (digits2_pos k) - 1))
    by (apply Z.pow_le_mono_r; lia).
  lia.
Qed.

(** [float(k)] and [float(2 * k)] have the same mantissa, one exponent
    apart, for [k] below 2 ^ 52. *)
Lemma normalize_pair (k : positive) :
  Z.pos k < 2 ^ 52 ->
  exists (M : positive) (E : Z),
    digits2_pos M = 53%positive /\ -52 <= E <= -1
    /\ binary_normalize prec emax (Z.pos k) 0 false = S754_finite false M E
    /\ binary_normalize prec emax (Z.pos k~0) 0 false = S754_finite false M (E + 1).
Proof.
  intros Hk. pose proof (digits2_pos_bound k 52 ltac:(lia) Hk) as Hd.
  set (dk := digits2_pos k) in *.
  destruct (Z.pos dk - 53) as [| d | d] eqn:Ed; try lia.
  exists (Pos.iter xO k d), (Z.neg d).
  assert (HM : digits2_pos (Pos.iter xO k d) = 53%positive).
  { apply Pos2Z.inj. rewrite digits2_pos_iter. fold dk. lia. }
  split; [ exact HM | ]. split; [ lia | ]. split.
  - unfold binary_normalize, binary_round. fold dk.
    rewrite fexp_normal by lia. rewrite Z.add_0_r, Ed.
    unfold shl_align. cbn [Z.sub Z.opp Z.add].
    apply round_canonical; [ exact HM | lia ].
  - unfold binary_normalize, binary_round. cbn [digits2_pos]. fold dk.
    rewrite fexp_normal by lia.
    replace (Z.pos (Pos.succ dk) + 0 - 53) with (Z.neg d + 1) by lia.
    unfold shl_align. rewrite Z.sub_0_r.
    destruct (Pos.eq_dec d 1) as [-> | Hne].
    + cbn [Z.add Z.pos_sub Pos.iter]. apply round_canonical; [ exact HM | lia ].
    + destruct (Z.neg d + 1) as [| d' | d'] eqn:Ed'; try lia.
      assert (Hdd : d = Pos.succ d') by lia.
      replace (Pos.iter xO (xO k) d') with (Pos.iter xO k d).
      2:{ rewrite Hdd, Pos.iter_succ. symmetry. apply Pos.iter_swap. }
      apply round_canonical; [ exact HM | lia ].
Qed.

End RoundingExact.

(* ================================================================== *)
(** ** Gaussian kernels *)

Section GaussianKernels.
Import Gaussian.
Local Open Scope float_scope.

Variable np_exp : float -> float.

Lemma zip3_map {E A B C D : Type} (g : A -> B -> C -> D)
  (fa : E -> A) (fb : E -> B) (fc : E -> C) (l : list E) :
  zip3 g (map fa l) (map fb l) (map fc l)
  = map (fun e => g (fa e) (fb e) (fc e)) l.
Proof. induction l as [| e l IH]; simpl; [ reflexivity | now rewrite IH ]. Qed.

(** Combining the three arrays of a mesh element by element is a triple
    loop over the three vectors. *)
Lemma elementwise3_meshgrid (f : float -> float -> float -> float)
  (x y z : list float) :
  (let '(ix, iy, iz) := meshgrid_ij x y z in elementwise3 f ix iy iz)
  = map (fun xi => map (fun yj => map (fun zk => f xi yj zk) z) y) x.
Proof.
  unfold meshgrid_ij, elementwise3.
  rewrite zip3_map. apply map_ext; intros xi.
  rewrite zip3_map. apply map_ext; intros yj.
  rewrite zip3_map. reflexivity.
Qed.

Lemma gaussian_3d_loops (nx ny nz : nat) (sgm : sigma) :
  gaussian_3d np_exp nx ny nz sgm
  = let '(sx, sy, sz) := unpack_sigma sgm in
    map (fun xi =>
      map (fun yj =>
        map (fun zk => np_exp (exponent_3d sx sy sz xi yj zk))
          (linspace (- half (Z.of_nat nz - 1)) (half (Z.of_nat nz - 1)) nz))
        (linspace (- half (Z.of_nat ny - 1)) (half (Z.of_nat ny - 1)) ny))
      (linspace (- half (Z.of_nat nx - 1)) (half (Z.of_nat nx - 1)) nx).
Proof.
  unfold gaussian_3d. destruct (unpack_sigma sgm) as [[sx sy] sz].
  apply (elementwise3_meshgrid
           (fun ix iy iz => np_exp (exponent_3d sx sy sz ix iy iz))).
Qed.

Lemma item3_loops (g : float -> float -> float -> float)
  (x y z : list float) (i j k : nat) :
  item3 (map (fun xi => map (fun yj => map (fun zk => g xi yj zk) z) y) x) i j k
  = match nth_error x i, nth_error y j, nth_error z k with
    | Some a, Some b, Some c => Some (g a b c)
    | _, _, _ => None
    end.
Proof.
  unfold item3. rewrite nth_error_map.
  destruct (nth_error x i) as [a |]; simpl; [ | reflexivity ].
  rewrite nth_error_map.
  destruct (nth_error y j) as [b |]; simpl; [ | reflexivity ].
  rewrite nth_error_map.
  destruct (nth_error z k) as [c |]; reflexivity.
Qed.

Lemma linspace_length (a b : float) (n : nat) :
  List.length (linspace a b n) = n.
Proof. unfold linspace. now rewrite length_map, length_seq. Qed.

Lemma linspace_nth (a b : float) (n i : nat) :
  (i < n)%nat -> nth_error (linspace a b n) i = Some (linspace_item a b n i).
Proof.
  intros Hi. unfold linspace. rewrite nth_error_map.
  rewrite nth_error_nth' with (d := O) by (rewrite length_seq; exact Hi).
  rewrite seq_nth by exact Hi. reflexivity.
Qed.

Lemma linspace_nth_none (a b : float) (n i : nat) :
  (n <= i)%nat -> nth_error (linspace a b n) i = None.
Proof.
  intros H. apply nth_error_None. now rewrite linspace_length.
Qed.

(** Inside the array the element at [(i, j, k)] is [np.exp] of the
    exponent at the three axis coordinates. *)
Lemma gaussian_3d_item (nx ny nz : nat) (sgm : sigma) (i j k : nat) :
  (i < nx)%nat -> (j < ny)%nat -> (k < nz)%nat ->
  item3 (gaussian_3d np_exp nx ny nz sgm) i j k
  = Some (np_exp (exponent_at nx ny nz sgm i j k)).
Proof.
  intros Hi Hj Hk. rewrite gaussian_3d_loops. unfold exponent_at.
  destruct (unpack_sigma sgm) as [[sx sy] sz].
  rewrite item3_loops.
  rewrite (linspace_nth _ _ nx i Hi), (linspace_nth _ _ ny j Hj),
          (linspace_nth _ _ nz k Hk).
  reflexivity.
Qed.

Lemma gaussian_3d_item_inside (nx ny nz : nat) (sgm : sigma) (i j k : nat)
  (v : float) :
  item3 (gaussian_3d np_exp nx ny nz sgm) i j k = Some v ->
  (i < nx)%nat /\ (j < ny)%nat /\ (k < nz)%nat.
Proof.
  intros H. rewrite gaussian_3d_loops in H.
  destruct (unpack_sigma sgm) as [[sx sy] sz].
  rewrite item3_loops in H.
  destruct (Nat.lt_ge_cases i nx) as [Hi | Hi];
    [ | rewrite (linspace_nth_none _ _ nx i Hi) in H; discriminate H ].
  rewrite (linspace_nth _ _ nx i Hi) in H.
  destruct (Nat.lt_ge_cases j ny) as [Hj | Hj];
    [ | rewrite (linspace_nth_none _ _ ny j Hj) in H; discriminate H ].
  rewrite (linspace_nth _ _ ny j Hj) in H.
  destruct (Nat.lt_ge_cases k nz) as [Hk | Hk];
    [ | rewrite (linspace_nth_none _ _ nz k Hk) in H; discriminate H ].
  repeat split; assumption.
Qed.

(** X9: the array has shape [(nx, ny, nz)]: an index triple has a value
    exactly when each index is below its dimension. *)
Theorem gaussian_3d_shape (nx ny nz : nat) (sgm : sigma) (i j k : nat) :
  item3 (gaussian_3d np_exp nx ny nz sgm) i j k <> None
  <-> (i < nx)%nat /\ (j < ny)%nat /\ (k < nz)%nat.
Proof.
  split.
  - intros H.
    destruct (item3 (gaussian_3d np_exp nx ny nz sgm) i j k) as [v |] eqn:Hv;
      [ | now elim H ].
    exact (gaussian_3d_item_inside nx ny nz sgm i j k v Hv).
  - intros (Hi & Hj & Hk).
    rewrite (gaussian_3d_item nx ny nz sgm i j k Hi Hj Hk). discriminate.
Qed.

(** *** The sign of the exponent *)














(** *** The centre of an odd axis *)

Lemma float_of_int_uint63 (n : Z) :
  (0 <= n < 2 ^ 63)%Z -> B64.float_of_int n = of_uint63 (Uint63.of_Z n).
Proof.
  intros H. unfold B64.float_of_int.
  rewrite <- (SF2Prim_Prim2SF (of_uint63 (Uint63.of_Z n))).
  rewrite of_uint63_spec, Uint63.of_Z_spec.
  rewrite Z.mod_small; [ reflexivity | exact H ].
Qed.

(** [float(n)] through the machine integer, for the specification of the
    conversion. *)
Lemma Prim2SF_float_of_int (n : Z) :
  (0 <= n < 2 ^ 63)%Z ->
  Prim2SF (B64.float_of_int n) = binary_normalize prec emax n 0 false.
Proof.
  intros H. rewrite float_of_int_uint63 by exact H.
  rewrite of_uint63_spec, Uint63.of_Z_spec.
  rewrite Z.mod_small; [ reflexivity | exact H ].
Qed.

(** The middle coordinate of an axis with an odd number of points is a
    zero, for every size below [size_limit]: with [m] the middle index,
    the half-extent is [float(m)], [delta] is [float(2 * m)], the step is
    1.0, and [float(m) * 1.0 + (- float(m))] is +0. *)
Lemma axis_point_centre (n : nat) :
  Nat.odd n = true -> (Z.of_nat n < size_limit)%Z ->
  exists s : bool, Prim2SF (axis_point n (center_index n)) = S754_zero s.
Proof.
  intros Hodd Hn. unfold size_limit in Hn.
  apply Nat.odd_spec in Hodd. destruct Hodd as [m Hm].
  assert (Hc : center_index n = m).
  { unfold center_index. subst n.
    replace (2 * m + 1 - 1)%nat with (m * 2)%nat by lia.
    apply Nat.div_mul. discriminate. }
  rewrite Hc. destruct m as [| m'].
  - subst n. exists false. vm_compute. reflexivity.
  - exists false.
    assert (H253 : (2 ^ 53 = 2 * 2 ^ 52)%Z) by reflexivity.
    destruct (Z.of_nat (S m')) as [| k | k] eqn:Ek; try lia.
    assert (Hk : (Z.pos k < 2 ^ 52)%Z) by lia.
    destruct (normalize_pair k Hk) as (M & E & HM & HE & N1 & N2).
    unfold axis_point, half.
    replace (Z.of_nat n - 1)%Z with (Z.pos k~0) by lia.
    replace n with (S (S (2 * m' + 1))) by lia.
    cbn [linspace_item].
    replace (Nat.eqb (S m') (S (2 * m' + 1))) with false
      by (symmetry; apply Nat.eqb_neq; lia).
    replace (Z.of_nat (S (2 * m' + 1))) with (Z.pos k~0) by lia.
    rewrite Ek.
    set (A := B64.float_of_int (Z.pos k~0)).
    set (B := B64.float_of_int (Z.pos k)).
    assert (HA : Prim2SF A = S754_finite false M (E + 1)).
    { unfold A. rewrite Prim2SF_float_of_int by lia. exact N2. }
    assert (HB : Prim2SF B = S754_finite false M E).
    { unfold B. rewrite Prim2SF_float_of_int by lia. exact N1. }
    assert (Hh : A / 2 = B).
    { apply Prim2SF_inj. rewrite div_spec, HA, HB.
      change (Prim2SF 2) with (S754_finite false 4503599627370496 (-51)).
      apply SFdiv_two; [ exact HM | lia ]. }
    rewrite Hh.
    assert (Hdelta : B - - B = A).
    { apply Prim2SF_inj. rewrite sub_spec, opp_spec, HA, HB.
      apply SFsub_opp; [ exact HM | lia ]. }
    rewrite Hdelta.
    assert (Hstep : A / A = 1).
    { apply Prim2SF_inj. rewrite div_spec, HA.
      change (Prim2SF 1) with (S754_finite false 4503599627370496 (-52)).
      apply SFdiv_self. exact HM. }
    rewrite Hstep. change (1 =? 0) with false. cbv iota.
    rewrite add_spec, mul_spec, opp_spec, HB.
    change (Prim2SF 1) with (S754_finite false 4503599627370496 (-52)).
    unfold SF64mul, SF64add. rewrite SFmul_one by (exact HM || lia).
    apply SFadd_opp.
Qed.
Lemma positive_divisor (d : float) :
  (0 <? d) = true ->
  (exists m e, Prim2SF d = S754_finite false m e)
  \/ Prim2SF d = S754_infinity false.
Proof.
  rewrite ltb_spec. change (Prim2SF 0) with (S754_zero false).
  destruct (Prim2SF d) as [s | s | | s m e]; try discriminate.
  - destruct s; [ discriminate | now right ].
  - destruct s; [ discriminate | ]. intros _. left. now exists m, e.
Qed.

(** At a point whose three coordinates are zeros, with positive divisors,
    the exponent is -0. *)
Lemma exponent_3d_at_zero (sx sy sz x y z : float) :
  (exists s, Prim2SF x = S754_zero s) ->
  (exists s, Prim2SF y = S754_zero s) ->
  (exists s, Prim2SF z = S754_zero s) ->
  (0 <? 2 * sx * sx) = true -> (0 <? 2 * sy * sy) = true ->
  (0 <? 2 * sz * sz) = true ->
  exponent_3d sx sy sz x y z = neg_zero.
Proof.
  intros [s1 Hx] [s2 Hy] [s3 Hz] Hdx Hdy Hdz.
  unfold exponent_3d.
  set (dx := 2 * sx * sx) in *. set (dy := 2 * sy * sy) in *.
  set (dz := 2 * sz * sz) in *.
  apply Prim2SF_inj.
  rewrite !sub_spec, !div_spec, opp_spec, !mul_spec, Hx, Hy, Hz.
  destruct (positive_divisor _ Hdx) as [(m1 & e1 & ->) | ->],
    (positive_divisor _ Hdy) as [(m2 & e2 & ->) | ->],
    (positive_divisor _ Hdz) as [(m3 & e3 & ->) | ->];
    destruct s1, s2, s3; reflexivity.
Qed.

(** C4, amended: for odd sizes below [size_limit], 2 ^ 53, and a sigma whose
    divisors [2 * s * s] are positive doubles, the element at the middle
    index [((nx-1)/2, (ny-1)/2, (nz-1)/2)] is exactly 1.0, given that
    [np.exp(-0.0)] is 1.0: the three middle coordinates are zeros and the
    exponent is -0. *)
Theorem gaussian_3d_center_is_one_for_odd_dimensions
  (nx ny nz : nat) (sgm : sigma) :
  np_exp neg_zero = 1 ->
  Nat.odd nx = true -> Nat.odd ny = true -> Nat.odd nz = true ->
  (Z.of_nat nx < size_limit)%Z -> (Z.of_nat ny < size_limit)%Z ->
  (Z.of_nat nz < size_limit)%Z ->
  divisors_positive sgm ->
  item3 (gaussian_3d np_exp nx ny nz sgm)
        (center_index nx) (center_index ny) (center_index nz)
  = Some 1.
Proof.
  intros Hexp Hx Hy Hz Lx Ly Lz Hs.
  assert (Hlt : forall n, Nat.odd n = true -> (center_index n < n)%nat).
  { intros n Hn. unfold center_index. destruct n as [| n']; [ discriminate Hn | ].
    apply Nat.Div0.div_lt_upper_bound. lia. }
  rewrite (gaussian_3d_item nx ny nz sgm _ _ _ (Hlt nx Hx) (Hlt ny Hy) (Hlt nz Hz)).
  unfold exponent_at, divisors_positive in *.
  destruct (unpack_sigma sgm) as [[sx sy] sz]. destruct Hs as (H1 & H2 & H3).
  rewrite (exponent_3d_at_zero sx sy sz _ _ _
             (axis_point_centre nx Hx Lx) (axis_point_centre ny Hy Ly)
             (axis_point_centre nz Hz Lz) H1 H2 H3).
  rewrite Hexp. reflexivity.
Qed.



End GaussianKernels.

(* ================================================================== *)
(** ** Runs of the Gaussian kernels *)

Section GaussianRuns.
Import Gaussian.
Local Open Scope float_scope.


(** C4, as stated, fails.  With an even size no grid point lies on the
    centre: the two points of [gaussian_3d(2, 1, 1, 1)] sit at -0.5 and
    0.5, and the element at the floor index [(0, 0, 0)] is
    [np.exp(-0.125)], not [np.exp] of a zero; with sigma 1e-160 the
    exponent there is -inf and the element 0.0.  With an odd size and
    sigma 1e-200 the divisor [2 * s * s] is 0.0 and the middle element is
    [np.exp(NaN)]. *)
Lemma gaussian_3d_even_dimension_center_is_not_one :
  (forall np_exp : float -> float,
      item3 (gaussian_3d np_exp 2 1 1 (Scalar 1))
            (center_index 2) (center_index 1) (center_index 1)
      = Some (np_exp (-0.125)))
  /\ (forall np_exp : float -> float,
        np_exp neg_infinity = 0 ->
        item3 (gaussian_3d np_exp 2 1 1 (Scalar 1e-160))
              (center_index 2) (center_index 1) (center_index 1)
        = Some 0)
  /\ (0 =? 1) = false
  /\ (0 <? 1e-160) = true
  /\ (forall np_exp : float -> float,
        item3 (gaussian_3d np_exp 1 1 1 (Scalar 1e-200))
              (center_index 1) (center_index 1) (center_index 1)
        = Some (np_exp nan))
  /\ (0 <? 1e-200) = true.
Proof.
  split; [ intros np_exp; vm_compute; reflexivity | ].
  split; [ intros np_exp H; vm_compute in H |- *; rewrite H; reflexivity | ].
  split; [ vm_compute; reflexivity | ].
  split; [ vm_compute; reflexivity | ].
  split; [ intros np_exp; vm_compute; reflexivity | vm_compute; reflexivity ].
Qed.

Lemma gaussian_3d_center_is_one_for_odd_dimensions_witness :
  item3 (gaussian_3d coarse_exp 3 5 7 (PerAxis 1 2.5 0.3))
        (center_index 3) (center_index 5) (center_index 7)
  = Some 1.
Proof.
  apply gaussian_3d_center_is_one_for_odd_dimensions.
  - vm_compute. reflexivity.
  - reflexivity.
  - reflexivity.
  - reflexivity.
  - reflexivity.
  - reflexivity.
  - reflexivity.
  - vm_compute. repeat split.
Defined.





End GaussianRuns.

(* ================================================================== *)
(** ** Further laws of the error messages *)

Section ErrorLaws.
Import Errors.
Local Open Scope string_scope.

Lemma append_inv_head (s a b : string) : s ++ a = s ++ b -> a = b.
Proof.
  induction s as [| ch s IH]; simpl; intros H; [ exact H | ].
  injection H as H. now apply IH.
Qed.

(** X15: the primary message tells the class: two exceptions with the same
    message are of the same class, and for the two classes that take a
    trace the message also tells the trace. *)
Theorem primary_message_identifies_class
  (k1 k2 : error_kind) (t1 t2 : string) :
  primary_message k1 t1 = primary_message k2 t2 ->
  k1 = k2
  /\ (k1 = ChannelNameException \/ k1 = BadUpfactorException -> t1 = t2).
Proof.
  intros H.
  destruct k1, k2;
    try (exfalso; cbn in H; discriminate H);
    (split; [ reflexivity | ]);
    try (intros [E | E]; discriminate E);
    intros _; unfold primary_message in H;
    repeat (apply append_inv_head in H); exact H.
Qed.

Lemma primary_message_identifies_class_witness :
  ChannelNameException = ChannelNameException
  /\ (ChannelNameException = ChannelNameException
      \/ ChannelNameException = BadUpfactorException -> "XX.ABC..HHZ" = "XX.ABC..HHZ").
Proof.
  apply primary_message_identifies_class. reflexivity.
Defined.

End ErrorLaws.

(* ================================================================== *)
(** ** Making directories *)

Section MakingDirectories.
Import Directories.

Lemma path_eqb_refl (p : path) : path_eqb p p = true.
Proof. unfold path_eqb. destruct (list_eq_dec string_dec p p); congruence. Qed.

Lemma path_eqb_true (p q : path) : path_eqb p q = true -> p = q.
Proof. unfold path_eqb. destruct (list_eq_dec string_dec p q); congruence. Qed.

Lemma grows_refl (fs : filesystem) : grows fs fs.
Proof. intros q. now left. Qed.

Lemma grows_trans (a b c : filesystem) : grows a b -> grows b c -> grows a c.
Proof.
  intros Hab Hbc q. destruct (Hab q) as [H1 | [H1 H1']],
    (Hbc q) as [H2 | [H2 H2']].
  - left. congruence.
  - right. split; congruence.
  - right. split; congruence.
  - congruence.
Qed.

Lemma grows_extends (fs fs' : filesystem) : grows fs fs' -> extends fs fs'.
Proof.
  intros Hg q n Hq. destruct (Hg q) as [H | [H _]]; congruence.
Qed.

Lemma add_dir_grows (fs : filesystem) (p : path) :
  fs p = None -> grows fs (add_dir fs p).
Proof.
  intros Hp q. unfold add_dir.
  destruct (path_eqb q p) eqn:E; [ | now left ].
  apply path_eqb_true in E. subst q. right. now split.
Qed.

Lemma resolve_dir_extends (fs fs' : filesystem) (p : path) :
  extends fs fs' -> resolve_dir fs p = None -> resolve_dir fs' p = None.
Proof.
  intros Hext. induction p as [| c parent IH]; simpl; [ reflexivity | ].
  destruct (resolve_dir fs parent) as [e |]; [ discriminate | ].
  rewrite IH by reflexivity.
  destruct (fs (c :: parent)) as [[|] |] eqn:E; try discriminate.
  intros _. now rewrite (Hext _ _ E).
Qed.

Lemma resolve_dir_parent (fs : filesystem) (c : string) (parent : path) :
  resolve_dir fs (c :: parent) = None ->
  resolve_dir fs parent = None /\ fs (c :: parent) = Some Dir.
Proof.
  simpl. destruct (resolve_dir fs parent) as [e |]; [ discriminate | ].
  destruct (fs (c :: parent)) as [[|] |]; try discriminate. now split.
Qed.

Lemma resolve_dir_suffix (fs : filesystem) (pre p : path) :
  resolve_dir fs (pre ++ p) = None -> resolve_dir fs p = None.
Proof.
  induction pre as [| c pre IH]; simpl; [ trivial | ].
  intros H. apply IH.
  destruct (resolve_dir fs (pre ++ p)); [ discriminate | reflexivity ].
Qed.

Lemma os_mkdir_result (fs fs' : filesystem) (p : path) (r : option os_error) :
  os_mkdir fs p = (fs', r) ->
  grows fs fs'
  /\ (r = None -> resolve_dir fs' p = None)
  /\ (r <> None -> fs' = fs).
Proof.
  unfold os_mkdir. destruct p as [| c parent].
  - intros H; injection H as <- <-.
    split; [ apply grows_refl | split; [ discriminate | reflexivity ] ].
  - destruct (resolve_dir fs parent) as [e |] eqn:Hpar.
    + intros H; injection H as <- <-.
      split; [ apply grows_refl | split; [ discriminate | reflexivity ] ].
    + destruct (fs (c :: parent)) as [n |] eqn:Hp.
      * intros H; injection H as <- <-.
        split; [ apply grows_refl | split; [ discriminate | reflexivity ] ].
      * intros H; injection H as <- <-.
        pose proof (add_dir_grows fs (c :: parent) Hp) as Hext.
        split; [ exact Hext | ]. split; [ | congruence ].
        intros _. simpl.
        rewrite (resolve_dir_extends fs _ parent (grows_extends _ _ Hext) Hpar).
        unfold add_dir. now rewrite path_eqb_refl.
Qed.

Lemma mkdir_result (ok : bool) (fs fs' : filesystem) (p : path)
  (r : option os_error) :
  mkdir ok fs p = (fs', r) ->
  grows fs fs' /\ (r = None -> resolve_dir fs' p = None).
Proof.
  unfold mkdir. destruct (os_mkdir fs p) as [fs1 r1] eqn:Hos.
  destruct (os_mkdir_result _ _ _ _ Hos) as (Hext & Hdir & Hsame).
  destruct r1 as [e |].
  - assert (Hcase :
      (if (ok && is_dir fs p)%bool then (fs, None) else (fs, Some e))
      = (fs', r) ->
      grows fs fs' /\ (r = None -> resolve_dir fs' p = None)).
    { destruct (ok && is_dir fs p)%bool eqn:Hb;
        intros H; injection H as <- <-; (split; [ apply grows_refl | ]).
      - intros _. apply andb_prop in Hb. destruct Hb as [_ Hb].
        unfold is_dir in Hb. now destruct (resolve_dir fs p).
      - discriminate. }
    destruct e; try exact Hcase.
    intros H; injection H as <- <-. split; [ apply grows_refl | discriminate ].
  - intros H; injection H as <- <-. split; [ exact Hext | exact Hdir ].
Qed.

Lemma mkdir_parents_result (p : path) :
  forall (ok : bool) (fs fs' : filesystem) (r : option os_error),
    mkdir_parents ok fs p = (fs', r) ->
    grows fs fs' /\ (r = None -> resolve_dir fs' p = None).
Proof.
  induction p as [| c parent IH]; intros ok fs fs' r.
  - simpl. destruct (ok && is_dir fs [])%bool;
      intros H; injection H as <- <-;
      (split; [ apply grows_refl | ]); [ reflexivity | discriminate ].
  - cbn [mkdir_parents].
    destruct (os_mkdir fs (c :: parent)) as [fs1 r1] eqn:Hos.
    destruct (os_mkdir_result _ _ _ _ Hos) as (Hext & Hdir & Hsame).
    destruct r1 as [e |].
    + assert (Hcase :
        (if (ok && is_dir fs (c :: parent))%bool
         then (fs, None) else (fs, Some e)) = (fs', r) ->
        grows fs fs' /\ (r = None -> resolve_dir fs' (c :: parent) = None)).
      { destruct (ok && is_dir fs (c :: parent))%bool eqn:Hb;
          intros H; injection H as <- <-; (split; [ apply grows_refl | ]).
        - intros _. apply andb_prop in Hb. destruct Hb as [_ Hb].
          unfold is_dir in Hb. now destruct (resolve_dir fs (c :: parent)).
        - discriminate. }
      destruct e; try exact Hcase.
      destruct (mkdir_parents true fs parent) as [fs2 r2] eqn:Hrec.
      destruct (IH _ _ _ _ Hrec) as (Hext2 & _).
      destruct r2 as [e2 |].
      * intros H; injection H as <- <-. split; [ exact Hext2 | discriminate ].
      * intros H. destruct (mkdir_result _ _ _ _ _ H) as (Hext3 & Hdir3).
        split; [ eapply grows_trans; eassumption | exact Hdir3 ].
    + intros H; injection H as <- <-. split; [ exact Hext | exact Hdir ].
Qed.

(** On a path that is a directory already both forms of [mkdir] with
    [exist_ok] do nothing. *)
Lemma mkdir_on_directory (fs : filesystem) (p : path) :
  resolve_dir fs p = None ->
  mkdir true fs p = (fs, None) /\ mkdir_parents true fs p = (fs, None).
Proof.
  intros Hp. assert (Hd : is_dir fs p = true) by (unfold is_dir; now rewrite Hp).
  destruct p as [| c parent].
  - unfold mkdir. simpl. split; reflexivity.
  - destruct (resolve_dir_parent _ _ _ Hp) as [Hpar Hnode].
    unfold mkdir. cbn [mkdir_parents]. unfold os_mkdir.
    rewrite Hpar, Hnode, Hd. split; reflexivity.
Qed.


Lemma make_directories_result (fs fs' : filesystem) (run subdir : path)
  (r : option os_error) :
  make_directories fs run subdir = (fs', r) ->
  grows fs fs'
  /\ (r = None ->
      resolve_dir fs' run = None
      /\ resolve_dir fs' (joinpath run subdir) = None).
Proof.
  unfold make_directories.
  destruct (mkdir true fs run) as [fs1 r1] eqn:H1.
  destruct (mkdir_result _ _ _ _ _ H1) as (Hg1 & Hd1).
  destruct r1 as [e |].
  - intros H; injection H as <- <-. split; [ exact Hg1 | discriminate ].
  - specialize (Hd1 eq_refl). destruct subdir as [| c sub].
    + intros H; injection H as <- <-. split; [ exact Hg1 | ].
      intros _. split; exact Hd1.
    + cbv iota. intros H.
      destruct (mkdir_parents_result (joinpath run (c :: sub)) true fs1 fs' r H)
        as (Hg2 & Hd2).
      split; [ exact (grows_trans _ _ _ Hg1 Hg2) | ].
      intros Hr. split; [ | now apply Hd2 ].
      exact (resolve_dir_extends fs1 fs' run (grows_extends _ _ Hg2) Hd1).
Qed.

(** X16: after a call that raised nothing, [run] is a directory and so is
    [run / subdir], with every directory in between. *)
Theorem make_directories_creates (fs fs' : filesystem) (run subdir : path) :
  make_directories fs run subdir = (fs', None) ->
  is_dir fs' run = true /\ is_dir fs' (joinpath run subdir) = true
  /\ forall pre suf : path,
       subdir = pre ++ suf -> is_dir fs' (joinpath run suf) = true.
Proof.
  intros H. destruct (make_directories_result _ _ _ _ _ H) as (_ & Hd).
  destruct (Hd eq_refl) as (Hrun & Hsub). unfold is_dir.
  rewrite Hrun, Hsub. repeat split.
  intros pre suf ->. unfold joinpath in *. rewrite <- app_assoc in Hsub.
  now rewrite (resolve_dir_suffix fs' pre (suf ++ run) Hsub).
Qed.

Lemma make_directories_creates_witness :
  is_dir (fst (make_directories (fun _ => None) ["run"%string]
                 ["b"%string; "a"%string]))
         ["a"%string; "run"%string] = true.
Proof.
  refine (proj2 (proj2 (make_directories_creates (fun _ => None)
            _ ["run"%string] ["b"%string; "a"%string] _))
          ["b"%string] ["a"%string] eq_refl).
  reflexivity.
Defined.

(** X17: a second call with the same arguments, after one that raised
    nothing, raises nothing and changes nothing. *)
Theorem make_directories_idempotent
  (fs fs' : filesystem) (run subdir : path) :
  make_directories fs run subdir = (fs', None) ->
  make_directories fs' run subdir = (fs', None).
Proof.
  intros H. destruct (make_directories_result _ _ _ _ _ H) as (_ & Hd).
  destruct (Hd eq_refl) as (Hrun & Hsub).
  unfold make_directories.
  rewrite (proj1 (mkdir_on_directory fs' run Hrun)).
  destruct subdir as [| c sub]; [ reflexivity | ].
  apply (proj2 (mkdir_on_directory fs' _ Hsub)).
Qed.

Lemma make_directories_idempotent_witness :
  let fs' := fst (make_directories (fun _ => None) ["run"%string]
                    ["b"%string; "a"%string]) in
  make_directories fs' ["run"%string] ["b"%string; "a"%string] = (fs', None).
Proof.
  intros fs'. apply (make_directories_idempotent (fun _ => None)).
  reflexivity.
Defined.

(** X18: whatever the outcome, raised or not, nothing that was in the file
    system is removed or changed: the only change is directories where
    there was nothing. *)
Theorem make_directories_only_adds_directories
  (fs fs' : filesystem) (run subdir : path) (r : option os_error) :
  make_directories fs run subdir = (fs', r) ->
  extends fs fs'
  /\ forall q : path, fs' q = fs q \/ (fs q = None /\ fs' q = Some Dir).
Proof.
  intros H. destruct (make_directories_result _ _ _ _ _ H) as (Hg & _).
  split; [ now apply grows_extends | exact Hg ].
Qed.

Lemma make_directories_only_adds_directories_witness :
  extends (fun _ => None)
    (fst (make_directories (fun _ => None) ["run"%string] ["a"%string])).
Proof.
  refine (proj1 (make_directories_only_adds_directories (fun _ => None) _
                   ["run"%string] ["a"%string] None _)).
  reflexivity.
Defined.

(** X19: the parents of [run] itself are not made: when the parent of
    [run] does not exist the call raises [FileNotFoundError] and changes
    nothing, with or without a [subdir]. *)
Theorem make_directories_missing_parent
  (fs : filesystem) (name : string) (parent subdir : path) :
  resolve_dir fs parent = Some FileNotFoundError ->
  make_directories fs (name :: parent) subdir = (fs, Some FileNotFoundError).
Proof.
  intros H. unfold make_directories, mkdir, os_mkdir. now rewrite H.
Qed.

Lemma make_directories_missing_parent_witness :
  make_directories (fun _ => None) ["run"%string; "out"%string] ["a"%string]
  = (fun _ => None, Some FileNotFoundError).
Proof.
  apply make_directories_missing_parent. reflexivity.
Defined.

(** X20: when [run] exists and is a file the call raises
    [FileExistsError] and changes nothing. *)
Theorem make_directories_run_is_file
  (fs : filesystem) (name : string) (parent subdir : path) :
  resolve_dir fs parent = None -> fs (name :: parent) = Some File ->
  make_directories fs (name :: parent) subdir = (fs, Some FileExistsError).
Proof.
  intros Hpar Hfile. unfold make_directories, mkdir, os_mkdir, is_dir.
  simpl resolve_dir. now rewrite Hpar, Hfile.
Qed.

Lemma make_directories_run_is_file_witness :
  let fs := fun q : path =>
              if path_eqb q ["run"%string] then Some File else None in
  make_directories fs ["run"%string] [] = (fs, Some FileExistsError).
Proof.
  apply make_directories_run_is_file; reflexivity.
Defined.


Lemma resolve_dir_never_exists (fs : filesystem) (p : path) :
  resolve_dir fs p <> Some FileExistsError.
Proof.
  induction p as [| c parent IH]; simpl; [ discriminate | ].
  destruct (resolve_dir fs parent) as [e |].
  - intros H; injection H as ->. now apply IH.
  - destruct (fs (c :: parent)) as [[|] |]; discriminate.
Qed.

Lemma resolve_dir_finds_file (fs : filesystem) (run s : path) :
  resolve_dir fs run = None ->
  resolve_dir fs (s ++ run) = Some NotADirectoryError ->
  exists pre suf : path, s = pre ++ suf /\ fs (suf ++ run) = Some File.
Proof.
  intros Hrun. induction s as [| c s IH]; simpl.
  - rewrite Hrun. discriminate.
  - destruct (resolve_dir fs (s ++ run)) as [e |].
    + intros H; injection H as ->.
      destruct (IH eq_refl) as (pre & suf & -> & Hf).
      exists (c :: pre), suf. now split.
    + destruct (fs (c :: s ++ run)) as [[|] |] eqn:E; try discriminate.
      intros _. exists [], (c :: s). now split.
Qed.

Lemma mkdir_parents_succeeds (run : path) (sub : path) :
  forall fs : filesystem,
    resolve_dir fs run = None ->
    (forall pre suf : path, sub = pre ++ suf -> fs (suf ++ run) <> Some File) ->
    exists fs', mkdir_parents true fs (sub ++ run) = (fs', None).
Proof.
  induction sub as [| c sub IH]; intros fs Hrun Hfiles.
  - exists fs. apply (mkdir_on_directory fs run Hrun).
  - assert (Hhere : fs (c :: sub ++ run) <> Some File)
      by (apply (Hfiles [] (c :: sub)); reflexivity).
    assert (Hbelow : forall pre suf : path,
               sub = pre ++ suf -> fs (suf ++ run) <> Some File)
      by (intros pre suf ->; apply (Hfiles (c :: pre) suf); reflexivity).
    simpl app. cbn [mkdir_parents]. unfold os_mkdir.
    destruct (resolve_dir fs (sub ++ run)) as [e |] eqn:Hpar.
    + destruct e.
      * destruct (IH fs Hrun Hbelow) as [fs1 H1]. rewrite H1.
        destruct (mkdir_parents_result _ _ _ _ _ H1) as (Hg & Hd).
        specialize (Hd eq_refl).
        unfold mkdir, os_mkdir, is_dir. simpl resolve_dir. rewrite Hd.
        destruct (Hg (c :: sub ++ run)) as [Hq | [Hq Hq']].
        -- rewrite Hq. destruct (fs (c :: sub ++ run)) as [[|] |];
             [ now exists fs1 | now elim Hhere | eexists; reflexivity ].
        -- rewrite Hq'. now exists fs1.
      * exfalso. destruct (resolve_dir_finds_file fs run sub Hrun Hpar)
          as (pre & suf & Hs & Hf). exact (Hbelow pre suf Hs Hf).
      * exfalso. exact (resolve_dir_never_exists fs _ Hpar).
    + destruct (fs (c :: sub ++ run)) as [[|] |] eqn:Hp.
      * unfold is_dir. simpl resolve_dir. rewrite Hpar, Hp. now exists fs.
      * now elim Hhere.
      * eexists; reflexivity.
Qed.

(** X21: the call raises nothing when the parent of [run] is a directory
    and there is no file in the way, at [run] or at a directory to be made
    under it; [run] and the directories under it may exist already or
    not. *)
Theorem make_directories_succeeds
  (fs : filesystem) (name : string) (parent subdir : path) :
  resolve_dir fs parent = None ->
  (forall pre suf : path,
     subdir = pre ++ suf -> fs (joinpath (name :: parent) suf) <> Some File) ->
  exists fs', make_directories fs (name :: parent) subdir = (fs', None).
Proof.
  intros Hpar Hfiles. set (run := name :: parent) in *.
  assert (Hrun : fs run <> Some File).
  { apply (Hfiles subdir []). now rewrite app_nil_r. }
  assert (H1 : exists fs1, mkdir true fs run = (fs1, None)).
  { unfold mkdir, os_mkdir, is_dir, run. simpl resolve_dir. rewrite Hpar.
    fold run. destruct (fs run) as [[|] |];
      [ now exists fs | now elim Hrun | eexists; reflexivity ]. }
  destruct H1 as [fs1 H1]. unfold make_directories. rewrite H1.
  destruct (mkdir_result _ _ _ _ _ H1) as (Hg & Hd). specialize (Hd eq_refl).
  destruct subdir as [| c sub]; [ now exists fs1 | ].
  apply (mkdir_parents_succeeds run (c :: sub) fs1 Hd).
  intros pre suf Hs Hf.
  destruct (Hg (suf ++ run)) as [Hq | [_ Hq]]; [ | congruence ].
  apply (Hfiles pre suf Hs). unfold joinpath. congruence.
Qed.

Lemma make_directories_succeeds_witness :
  exists fs',
    make_directories (fun _ => None) ["run"%string] ["b"%string; "a"%string]
    = (fs', None).
Proof.
  apply make_directories_succeeds.
  - reflexivity.
  - intros pre suf _. discriminate.
Defined.

End MakingDirectories.
